(** * MediAssist-AI: the RAG answer generator

    A shallow embedding of [src/rag/generation/generator.py]
    (class [AnswerGenerator]) and the properties its specification states
    about context formatting, citation extraction and the degraded mode.

    Python strings are modelled as Rocq strings, that is as the bytes of
    their UTF-8 encoding.  The markers the code searches for are ASCII, and
    UTF-8 is self-synchronising, so a substring test on the bytes agrees
    with Python's test on code points. *)

From Stdlib Require Import ZArith Lia Ascii String List.
From stdpp Require Import base tactics option list sorting strings pretty gmap.

Local Open Scope string_scope.

(** * The program *)

(** ** Python values *)

(** The values a document can hold under [content] and inside [metadata].
    The code does two things with them: it renders them inside an f-string
    and it copies them, unchanged, into a citation.  An object other than
    [None], a [bool], an [int] or a [str] (a list of authors, a float) is
    therefore represented by what [format] renders it as. *)
Inductive pyval : Type :=
  | PNone
  | PBool (b : bool)
  | PInt (z : Z)
  | PStr (s : string)
  | POther (rendering : string).

(** [f"{v}"]: what an f-string replacement field renders [v] as. *)
Definition py_format (v : pyval) : string :=
  match v with
  | PNone => "None"
  | PBool true => "True"
  | PBool false => "False"
  | PInt z => pretty z
  | PStr s => s
  | POther r => r
  end.

(** What [doc.get("metadata", {})] can evaluate to when the key is present:
    a dict, on which [.get] works, or some other object, on which [.get]
    raises [AttributeError]. *)
Inductive pyobj : Type :=
  | ODict (m : gmap string pyval)
  | OVal (v : pyval).

(** A retrieved document: a Python dict of which the code reads the two keys
    [content] and [metadata]; a field is [None] when the key is missing. *)
Record document : Type := Document {
  content : option pyval;
  metadata : option pyobj;
}.

(** ** Exceptions *)

Inductive exn : Type :=
  | AttributeError
  | LLMError (msg : string).

Inductive result (A : Type) : Type :=
  | Ok (a : A)
  | Raise (e : exn).
Arguments Ok {A} a.
Arguments Raise {A} e.

#[global] Instance result_ret : MRet result := λ A a, Ok a.
#[global] Instance result_bind : MBind result := λ A B k r,
  match r with
  | Ok a => k a
  | Raise e => Raise e
  end.

(** ** String and dict operations of the Python runtime *)

(** [sub in s] on strings. *)
Fixpoint contains (sub s : string) : bool :=
  String.prefix sub s ||
  match s with
  | EmptyString => false
  | String _ rest => contains sub rest
  end.

(** [sep.join(parts)]. *)
Fixpoint join (sep : string) (parts : list string) : string :=
  match parts with
  | [] => ""
  | [p] => p
  | p :: ps => p ++ sep ++ join sep ps
  end.

Definition LF : ascii := "010"%char.
Definition NL : string := String LF "".

(** [s.split("\n")]: the lines of a text, a line being a maximal run of
    characters between line feeds. *)
Fixpoint lines (s : string) : list string :=
  match s with
  | EmptyString => [""]
  | String c rest =>
      if Ascii.eqb c LF then "" :: lines rest
      else match lines rest with
           | l :: ls => String c l :: ls
           | [] => [String c ""]
           end
  end.

(** An answer without an opening bracket cites nothing, whatever the
    documents are: their metadata is not even looked at. *)
Fixpoint has_char (c : ascii) (s : string) : bool :=
  match s with
  | EmptyString => false
  | String b rest => Ascii.eqb c b || has_char c rest
  end.

(** [dict.get(key, default)] and [dict.get(key)]. *)
Definition dict_get_default (m : gmap string pyval) (key : string)
    (default : pyval) : pyval :=
  match m !! key with
  | Some v => v
  | None => default
  end.

Definition dict_get (m : gmap string pyval) (key : string) : pyval :=
  dict_get_default m key PNone.

(** [obj.get(...)] on an arbitrary object: only a dict has the method. *)
Definition as_dict (o : pyobj) : result (gmap string pyval) :=
  match o with
  | ODict m => Ok m
  | OVal _ => Raise AttributeError
  end.

(** [doc.get("metadata", {})]. *)
Definition doc_metadata (doc : document) : pyobj :=
  match metadata doc with
  | Some o => o
  | None => ODict ∅
  end.

(** [doc.get("content", "")]. *)
Definition doc_content (doc : document) : pyval :=
  match content doc with
  | Some v => v
  | None => PStr ""
  end.

(** ** Citations *)

(** The dict [_extract_citations] builds for a cited document. *)
Module Citation.
Record t : Type := Make {
  index : nat;
  title : pyval;
  authors : pyval;
  year : pyval;
}.
End Citation.

(** [f"[{i}]"]. *)
Definition marker (i : nat) : string := "[" ++ pretty i ++ "]".

(** ** The generator *)

(** The reply of the language-model provider to a prompt.  It may depend on
    everything that was sent before (which stands for the provider's state
    and its sampling) and may fail. *)
Definition llm_log : Type := list string.

Record ChatOpenAI : Type := {
  invoke : llm_log → string → result string;
}.

(** The object [__init__] builds.  Its other attribute, [self.prompt], is
    the same template for every generator: see [prompt_format]. *)
Record AnswerGenerator : Type := {
  llm : option ChatOpenAI;
}.

Definition MEDICAL_PROMPT_head : string :=
"당신은 의료 전문가를 위한 진단 보조 AI입니다.
아래 참고 문헌을 바탕으로 질문에 답변하세요.

## 참고 문헌
".

Definition MEDICAL_PROMPT_mid : string :=
"

## 질문
".

Definition MEDICAL_PROMPT_tail : string :=
"

## 지침
1. 문헌에 근거하여 답변하세요
2. 불확실한 경우 명시적으로 표현하세요
3. 참고문헌을 [1], [2] 형식으로 인용하세요
4. 이 정보는 참고용이며 최종 진단은 의사가 결정해야 함을 명시하세요

## 답변".

(** [self.prompt] filled with its two input variables. *)
Definition prompt_format (context question : string) : string :=
  MEDICAL_PROMPT_head ++ context ++ MEDICAL_PROMPT_mid ++ question
    ++ MEDICAL_PROMPT_tail.

Definition NOT_CONFIGURED : string := "LLM이 구성되지 않았습니다.".

(** The dict [generate] returns. *)
Record GeneratedAnswer : Type := {
  answer : string;
  sources : list Citation.t;
}.

Section Generator.

(** The provider library: the type of Python floats, which the code only
    passes on, and the constructor of the client. *)
Variable float : Type.
Variable ChatOpenAI_new : string → float → string → ChatOpenAI.

(** Truth value of an [Optional[str]]: [None] and the empty string are
    falsy. *)
Definition truthy (api_key : option string) : bool :=
  match api_key with
  | None => false
  | Some key => negb (String.eqb key "")
  end.

Definition __init__ (model : string) (temperature : float)
    (api_key : option string) : AnswerGenerator :=
  {| llm :=
       match api_key with
       | Some key =>
           if truthy api_key
           then Some (ChatOpenAI_new model temperature key)
           else None
       | None => None
       end |}.

(** The f-string [f"[{i}] {title}\n{content}"]. *)
Definition entry (i : nat) (title content : pyval) : string :=
  "[" ++ pretty i ++ "] " ++ py_format title ++ NL ++ py_format content.

(** The loop of [_format_context]: [i] is the counter of [enumerate],
    [parts] the list built so far. *)
Fixpoint format_loop (i : nat) (documents : list document)
    (parts : list string) : result (list string) :=
  match documents with
  | [] => Ok parts
  | doc :: rest =>
      md ← as_dict (doc_metadata doc);
      let title := dict_get_default md "title" (PStr "Unknown") in
      let content := doc_content doc in
      format_loop (S i) rest (parts ++ [entry i title content])
  end.

Definition _format_context (self : AnswerGenerator)
    (documents : list document) : result string :=
  parts ← format_loop 1 documents [];
  mret (join (NL ++ NL) parts).

(** The loop of [_extract_citations]; the metadata of a document is only
    looked at when its marker occurs in the answer. *)
Fixpoint extract_loop (answer : string) (i : nat)
    (documents : list document) (citations : list Citation.t)
    : result (list Citation.t) :=
  match documents with
  | [] => Ok citations
  | doc :: rest =>
      if contains (marker i) answer then
        md ← as_dict (doc_metadata doc);
        extract_loop answer (S i) rest
          (citations ++ [Citation.Make i (dict_get md "title")
                           (dict_get md "authors") (dict_get md "year")])
      else extract_loop answer (S i) rest citations
  end.

Definition _extract_citations (self : AnswerGenerator) (answer : string)
    (documents : list document) : result (list Citation.t) :=
  extract_loop answer 1 documents [].

(** [generate], with the prompts sent to the provider so far threaded
    through: the second component is the log after the call. *)
Definition generate (self : AnswerGenerator) (question : string)
    (documents : list document) (log : llm_log)
    : result GeneratedAnswer * llm_log :=
  match llm self with
  | None => (Ok {| answer := NOT_CONFIGURED; sources := [] |}, log)
  | Some client =>
      match _format_context self documents with
      | Raise e => (Raise e, log)
      | Ok context =>
          let rendered := prompt_format context question in
          let log' := (log ++ [rendered])%list in
          match invoke client log rendered with
          | Raise e => (Raise e, log')
          | Ok text =>
              match _extract_citations self text documents with
              | Raise e => (Raise e, log')
              | Ok citations =>
                  (Ok {| answer := text; sources := citations |}, log')
              end
          end
      end
  end.

End Generator.

Arguments __init__ {float} ChatOpenAI_new model temperature api_key.

(** * The specification, in its own words *)

(** The spec's Document has a mapping under [metadata]; the key may be
    missing, but what is there is not some other kind of object. *)
Definition mapping_metadata (doc : document) : Prop :=
  match metadata doc with
  | Some (OVal _) => False
  | _ => True
  end.

Definition metadata_of (doc : document) : gmap string pyval :=
  match metadata doc with
  | Some (ODict m) => m
  | _ => ∅
  end.

(** "Missing title defaults to a placeholder (Unknown)"; a missing content
    is rendered as the empty string. *)
Definition title_spec (doc : document) : string :=
  match metadata_of doc !! "title" with
  | Some t => py_format t
  | None => "Unknown"
  end.

Definition content_spec (doc : document) : string :=
  match content doc with
  | Some c => py_format c
  | None => ""
  end.

(** "renders each document as [[i] <title>\n<content>]". *)
Definition rendering_spec (i : nat) (doc : document) : string :=
  "[" ++ pretty i ++ "] " ++ title_spec doc ++ NL ++ content_spec doc.

(** "1-indexed in input order, joined with blank-line separators". *)
Definition context_block_spec (documents : list document) : string :=
  join (NL ++ NL) (imap (λ k doc, rendering_spec (S k) doc) documents).

(** "a Citation ... carrying that document's index, title, authors, and
    year". *)
Definition citation_of (i : nat) (doc : document) : Citation.t :=
  let m := metadata_of doc in
  Citation.Make i (default PNone (m !! "title"))
    (default PNone (m !! "authors")) (default PNone (m !! "year")).

(** "the literal substring occurs somewhere in the text". *)
Definition occurs_in (sub s : string) : Prop :=
  ∃ before after, s = before ++ sub ++ after.

(** The citations the loop appends when it runs over [documents] with the
    counter starting at [i]. *)
Fixpoint cited_from (answer : string) (i : nat) (documents : list document)
    : list Citation.t :=
  match documents with
  | [] => []
  | doc :: rest =>
      (if contains (marker i) answer then [citation_of i doc] else [])
        ++ cited_from answer (S i) rest
  end%list.

(** ** Lines of the context block *)

(** [line.startswith(f"[{i}]")]. *)
Definition starts_with_marker (i : nat) (line : string) : bool :=
  String.prefix (marker i) line.

(** The line starts with the marker of one of the [n] documents. *)
Definition is_marker_line (n : nat) (line : string) : bool :=
  existsb (λ i, starts_with_marker i line) (seq 1 n).

(** The first line of the entry of a document, and the lines below it: what
    is left of the title after its first line feed, if any, and the lines of
    the content. *)
Definition header_line (i : nat) (doc : document) : string :=
  "[" ++ pretty i ++ "] " ++ hd "" (lines (title_spec doc)).

Definition body_lines (doc : document) : list string :=
  (tail (lines (title_spec doc)) ++ lines (content_spec doc))%list.

(** No line below the header of the document starts with the marker of one
    of the [n] documents. *)
Definition marker_free (n : nat) (doc : document) : Prop :=
  Forall (λ l, is_marker_line n l = false) (body_lines doc).

(** "exactly one line starting with [[i]] per document". *)
Definition one_line_per_marker (documents : list document) (ctx : string)
    : Prop :=
  ∀ k doc, documents !! k = Some doc →
    ∃ line, filter (λ l, starts_with_marker (S k) l = true) (lines ctx)
            = [line].

(** ** Sample documents and providers *)

Definition doc_A : document :=
  Document None (Some (ODict {[ "title" := PStr "A" ]})).
Definition doc_B : document :=
  Document None (Some (ODict {[ "title" := PStr "B" ]})).
Definition doc_full : document :=
  Document (Some (PStr "Chest pain in adults."))
    (Some (ODict (<[ "title" := PStr "Cardiology" ]>
                 (<[ "authors" := POther "['Kim', 'Lee']" ]>
                 {[ "year" := PInt 2021 ]})))).
Definition doc_bare : document := Document None None.

(** A document whose content quotes a numbered reference on a line of its
    own. *)
Definition doc_quoting : document :=
  Document (Some (PStr ("x" ++ NL ++ "[1] y")))
    (Some (ODict {[ "title" := PStr "A" ]})).

(** A client that always answers with the same text. *)
Definition fixed_reply (text : string) : ChatOpenAI :=
  {| invoke := λ _ _, Ok text |}.

(** A provider for the examples: the temperature is given as mantissa and
    decimal exponent. *)
Definition sample_provider (model : string) (temperature : Z * Z)
    (key : string) : ChatOpenAI :=
  fixed_reply "See [1].".

(** * Properties *)

(** ** Strings *)

Lemma app_String (a : ascii) (s t : string) :
  String a s ++ t = String a (s ++ t).
Proof. reflexivity. Qed.

Lemma app_empty_l (t : string) : "" ++ t = t.
Proof. reflexivity. Qed.

Lemma string_app_assoc (a b c : string) : (a ++ b) ++ c = a ++ b ++ c.
Proof.
  induction a as [|x a IH]; [done|]. by rewrite !app_String, IH.
Qed.

Lemma prefix_app (p s : string) :
  String.prefix p s = true ↔ ∃ rest, s = p ++ rest.
Proof.
  revert s. induction p as [|a p IH]; intros [|b s]; simpl.
  - split; [by exists ""|done].
  - split; [intros _; by exists (String b s)|done].
  - split; [done|intros [rest ?]; discriminate].
  - setoid_rewrite app_String. destruct (Ascii.ascii_dec a b) as [->|Hab].
    + rewrite IH. split; intros [rest Hr]; exists rest; congruence.
    + split; [done|intros [rest Hr]]. congruence.
Qed.

Lemma contains_occurs (sub s : string) :
  contains sub s = true ↔ occurs_in sub s.
Proof.
  unfold occurs_in. induction s as [|a s IH]; cbn [contains].
  - rewrite orb_false_r, prefix_app. split.
    + intros [rest Hr]. by exists "", rest.
    + intros [[|b before] [after Hs]].
      * by exists after.
      * discriminate.
  - rewrite orb_true_iff, IH, prefix_app. split.
    + intros [[rest Hr]|[before [after Hs]]].
      * by exists "", rest.
      * exists (String a before), after. by rewrite app_String, Hs.
    + intros [[|b before] [after Hs]].
      * left. by exists after.
      * right. exists before, after. rewrite app_String in Hs. congruence.
Qed.

Lemma has_char_app (c : ascii) (a b : string) :
  has_char c (a ++ b) = has_char c a || has_char c b.
Proof.
  induction a as [|d a IH]; [done|].
  rewrite app_String. cbn [has_char]. by rewrite IH, orb_assoc.
Qed.

Lemma contains_has_char (c : ascii) (p s : string) :
  contains (String c p) s = true → has_char c s = true.
Proof.
  induction s as [|b s IH]; cbn [contains has_char].
  - by rewrite orb_false_r.
  - intros [Hp|Hs]%orb_true_iff; apply orb_true_iff.
    + left. simpl in Hp. destruct (Ascii.ascii_dec c b) as [->|]; [|done].
      apply Ascii.eqb_refl.
    + right. by apply IH.
Qed.

Lemma prefix_same_delimiter (c : ascii) (a b x y : string) :
  has_char c a = false → has_char c b = false →
  String.prefix (a ++ String c x) (b ++ String c y) = true → a = b.
Proof.
  revert b. induction a as [|e a IH]; intros [|d b]; cbn [has_char];
    rewrite ?app_String, ?app_empty_l, ?orb_false_iff; simpl.
  - done.
  - intros _ [Hcd _]. destruct (Ascii.ascii_dec c d) as [->|]; [|done].
    by rewrite Ascii.eqb_refl in Hcd.
  - intros [Hce _] _. destruct (Ascii.ascii_dec e c) as [->|]; [|done].
    by rewrite Ascii.eqb_refl in Hce.
  - intros [_ Ha] [_ Hb]. destruct (Ascii.ascii_dec e d) as [->|]; [|done].
    intros Hp. f_equal. by apply IH.
Qed.

(** ** Lines *)

Lemma lines_not_nil (s : string) : lines s ≠ [].
Proof.
  induction s as [|c s IH]; cbn [lines]; [done|].
  destruct (Ascii.eqb c LF); [done|]. by destruct (lines s).
Qed.

Lemma lines_app_NL (a b : string) :
  lines (a ++ NL ++ b) = (lines a ++ lines b)%list.
Proof.
  induction a as [|c a IH].
  - reflexivity.
  - rewrite app_String. cbn [lines]. rewrite IH.
    destruct (Ascii.eqb c LF); [done|].
    pose proof (lines_not_nil a). by destruct (lines a).
Qed.

Lemma lines_app_no_LF (p t : string) :
  has_char LF p = false →
  lines (p ++ t) = (p ++ hd "" (lines t)) :: tail (lines t).
Proof.
  induction p as [|c p IH]; cbn [has_char].
  - intros _. rewrite !app_empty_l.
    pose proof (lines_not_nil t). by destruct (lines t).
  - intros [Hc Hp]%orb_false_iff. rewrite !app_String. cbn [lines].
    rewrite IH by done. rewrite Ascii.eqb_sym, Hc. done.
Qed.

(** ** Decimal numerals and markers *)

Lemma pretty_N_char_other (c : ascii) (x : N) :
  has_char c "0123456789" = false → Ascii.eqb c (pretty_N_char x) = false.
Proof.
  cbn [has_char]. rewrite !orb_false_iff. intros (?&?&?&?&?&?&?&?&?&?&_).
  unfold pretty_N_char. by repeat case_match.
Qed.

Lemma pretty_N_go_other (c : ascii) (x : N) (s : string) :
  has_char c "0123456789" = false →
  has_char c (pretty_N_go x s) = has_char c s.
Proof.
  intros Hc. revert s. induction (N.lt_wf_0 x) as [x _ IH]; intros s.
  destruct (decide (x = 0)%N) as [->|Hx]; [by rewrite pretty_N_go_0|].
  rewrite pretty_N_go_step by lia.
  rewrite IH by (apply N.div_lt; lia).
  cbn [has_char]. by rewrite pretty_N_char_other.
Qed.

(** A numeral holds nothing but digits. *)
Lemma pretty_nat_other (c : ascii) (n : nat) :
  has_char c "0123456789" = false → has_char c (pretty n) = false.
Proof.
  intros Hc. unfold pretty, pretty_nat, pretty, pretty_N.
  case_decide.
  - cbn [has_char] in *. rewrite !orb_false_iff in Hc. destruct Hc as [-> _].
    done.
  - by rewrite pretty_N_go_other.
Qed.

Lemma header_line_marker (i j : nat) (doc : document) :
  starts_with_marker j (header_line i doc) = true ↔ i = j.
Proof.
  unfold starts_with_marker, header_line, marker. split.
  - intros Hp. apply (inj pretty). symmetry.
    change (String.prefix (String "[" (pretty j ++ String "]" ""))
              (String "[" (pretty i ++ String "]"
                 (String " " (hd "" (lines (title_spec doc))))))
            = true) in Hp.
    simpl in Hp. destruct (Ascii.ascii_dec "[" "[") as [_|]; [|done].
    apply prefix_same_delimiter in Hp; [done|by apply pretty_nat_other..].
  - intros ->. apply prefix_app.
    exists (" " ++ hd "" (lines (title_spec doc))).
    by rewrite !string_app_assoc.
Qed.

Lemma is_marker_line_iff (n : nat) (l : string) :
  is_marker_line n l = true
  ↔ ∃ i, (1 ≤ i ≤ n)%nat ∧ starts_with_marker i l = true.
Proof.
  unfold is_marker_line. rewrite existsb_exists. split.
  - intros (i & Hi%in_seq & Hl). exists i. split; [lia|done].
  - intros (i & Hi & Hl). exists i. split; [apply in_seq; lia|done].
Qed.

Lemma starts_with_marker_empty (i : nat) : starts_with_marker i "" = false.
Proof. reflexivity. Qed.

Lemma is_marker_line_empty (n : nat) : is_marker_line n "" ≠ true.
Proof.
  rewrite is_marker_line_iff. intros (i & _ & Hi).
  by rewrite starts_with_marker_empty in Hi.
Qed.

(** ** Lists *)

Lemma seq_sorted (i n : nat) : StronglySorted lt (seq i n).
Proof.
  revert i. induction n as [|n IH]; intros i; simpl; constructor; [done|].
  apply Forall_forall. intros j Hj%elem_of_seq. lia.
Qed.

Lemma filter_sorted (P : nat → Prop) `{!∀ j, Decision (P j)} (l : list nat) :
  StronglySorted lt l → StronglySorted lt (filter P l).
Proof.
  induction 1 as [|j l _ IH Hj]; [constructor|].
  rewrite filter_cons. case_decide; [|done].
  constructor; [done|]. rewrite Forall_forall in *.
  intros k [_ Hk]%list_elem_of_filter. by apply Hj.
Qed.

Lemma filter_none {A : Type} (P : A → Prop) `{!∀ x, Decision (P x)}
    (l : list A) :
  Forall (λ x, ¬ P x) l → filter P l = [].
Proof.
  induction 1 as [|x l Hx _ IH]; [done|]. by rewrite filter_cons_False.
Qed.

Lemma concat_imap_singleton {A B : Type} (f : nat → A → B) (l : list A) :
  concat (imap (λ k x, [f k x]) l) = imap f l.
Proof.
  revert f. induction l as [|x l IH]; intros f; [done|].
  rewrite !imap_cons. simpl. f_equal. apply (IH (f ∘ S)).
Qed.

Lemma concat_imap_nil {A B : Type} (g : nat → A → list B) (l : list A) :
  (∀ k x, l !! k = Some x → g k x = []) → concat (imap g l) = [].
Proof.
  revert g. induction l as [|x l IH]; intros g Hg; [done|].
  rewrite imap_cons. simpl. rewrite (Hg 0 x eq_refl). simpl.
  apply IH. intros k y Hk. by apply (Hg (S k)).
Qed.

Lemma concat_imap_pick {A B : Type} (f : nat → A → B) (l : list A)
    (j : nat) (d : A) :
  l !! j = Some d →
  concat (imap (λ k x, if decide (k = j) then [f k x] else []) l) = [f j d].
Proof.
  revert f j. induction l as [|x l IH]; intros f j Hj; [done|].
  rewrite imap_cons. simpl. destruct j as [|j]; simpl in Hj.
  - injection Hj as ->. simpl. f_equal.
    apply concat_imap_nil. intros k y _. unfold compose. by case_decide.
  - case_decide; [done|]. simpl.
    change [f (S j) d] with [(f ∘ S) j d]. rewrite <-(IH (f ∘ S) j Hj).
    f_equal. apply imap_ext. intros k y _. unfold compose.
    by repeat case_decide; simplify_eq.
Qed.

(** ** The formatting loop *)

Lemma as_dict_mapping (doc : document) :
  mapping_metadata doc → as_dict (doc_metadata doc) = Ok (metadata_of doc).
Proof.
  unfold mapping_metadata, doc_metadata, metadata_of.
  by destruct (metadata doc) as [[m|v]|].
Qed.

Lemma entry_rendering (i : nat) (doc : document) :
  entry i (dict_get_default (metadata_of doc) "title" (PStr "Unknown"))
    (doc_content doc) = rendering_spec i doc.
Proof.
  unfold entry, rendering_spec, title_spec, content_spec, dict_get_default,
    doc_content.
  by destruct (metadata_of doc !! "title"), (content doc).
Qed.

Lemma format_loop_ok (documents : list document) :
  Forall mapping_metadata documents →
  ∀ i parts,
    format_loop i documents parts
    = Ok (parts ++ imap (λ k doc, rendering_spec (i + k) doc) documents)%list.
Proof.
  induction 1 as [|doc rest Hdoc _ IH]; intros i parts; simpl.
  - by rewrite app_nil_r.
  - rewrite (as_dict_mapping _ Hdoc). simpl.
    rewrite IH, entry_rendering, <-app_assoc. simpl.
    rewrite Nat.add_0_r. do 3 f_equal.
    apply imap_ext. intros k d _. simpl. f_equal. lia.
Qed.

Lemma format_context_ok (self : AnswerGenerator)
    (documents : list document) :
  Forall mapping_metadata documents →
  _format_context self documents = Ok (context_block_spec documents).
Proof.
  intros Hdocs. unfold _format_context. by rewrite format_loop_ok.
Qed.

(** Formatting looks at the metadata of every document: when it returns,
    each of them had a mapping there, or nothing. *)
Lemma format_loop_returns (documents : list document) :
  ∀ i parts r,
    format_loop i documents parts = Ok r → Forall mapping_metadata documents.
Proof.
  induction documents as [|doc rest IH]; intros i parts r; simpl; [done|].
  destruct (metadata doc) as [[m|v]|] eqn:Hmd;
    unfold doc_metadata; rewrite Hmd; simpl; [|done|];
    intros Hr;
    (constructor; [unfold mapping_metadata; by rewrite Hmd|by eapply IH]).
Qed.

Lemma format_context_returns (self : AnswerGenerator)
    (documents : list document) (ctx : string) :
  _format_context self documents = Ok ctx →
  Forall mapping_metadata documents.
Proof.
  unfold _format_context.
  destruct (format_loop 1 documents []) as [parts|] eqn:Hparts; [|done].
  intros _. by eapply format_loop_returns.
Qed.

Lemma lines_rendering (i : nat) (doc : document) :
  lines (rendering_spec i doc) = header_line i doc :: body_lines doc.
Proof.
  unfold rendering_spec, header_line, body_lines.
  replace ("[" ++ pretty i ++ "] " ++ title_spec doc ++ NL ++ content_spec doc)
    with ((("[" ++ pretty i ++ "] ") ++ title_spec doc)
            ++ NL ++ content_spec doc)
    by (by rewrite !string_app_assoc).
  rewrite lines_app_NL, lines_app_no_LF.
  - by rewrite !string_app_assoc.
  - rewrite !has_char_app, pretty_nat_other; done.
Qed.

Section Filtered.

(** A property of lines that the empty line does not have. *)
Variable P : string → Prop.
Context `{!∀ l, Decision (P l)}.
Hypothesis P_empty : ¬ P "".

Lemma filter_lines_join (parts : list string) :
  filter P (lines (join (NL ++ NL) parts))
  = concat ((λ p, filter P (lines p)) <$> parts).
Proof.
  induction parts as [|p [|q rest] IH].
  - simpl. by rewrite filter_cons_False.
  - simpl. by rewrite app_nil_r.
  - change (join (NL ++ NL) (p :: q :: rest))
      with (p ++ (NL ++ NL) ++ join (NL ++ NL) (q :: rest)).
    rewrite string_app_assoc, lines_app_NL.
    change (NL ++ join (NL ++ NL) (q :: rest))
      with ("" ++ NL ++ join (NL ++ NL) (q :: rest)).
    rewrite lines_app_NL, !filter_app, IH.
    change (lines "") with [""]. by rewrite filter_cons_False.
Qed.

Lemma filter_lines_context (documents : list document) :
  filter P (lines (context_block_spec documents))
  = concat (imap (λ k doc,
                    filter P (header_line (S k) doc :: body_lines doc))
              documents).
Proof.
  unfold context_block_spec. rewrite filter_lines_join, fmap_imap.
  f_equal. apply imap_ext. intros k doc _. unfold compose.
  by rewrite lines_rendering.
Qed.

End Filtered.

(** ** The extraction loop *)

Lemma citation_of_get (i : nat) (doc : document) :
  Citation.Make i (dict_get (metadata_of doc) "title")
    (dict_get (metadata_of doc) "authors") (dict_get (metadata_of doc) "year")
  = citation_of i doc.
Proof.
  unfold citation_of, dict_get, dict_get_default.
  by destruct (metadata_of doc !! "title"), (metadata_of doc !! "authors"),
    (metadata_of doc !! "year").
Qed.

Lemma extract_loop_ok (answer : string) (documents : list document) :
  Forall mapping_metadata documents →
  ∀ i citations,
    extract_loop answer i documents citations
    = Ok (citations ++ cited_from answer i documents)%list.
Proof.
  induction 1 as [|doc rest Hdoc _ IH]; intros i citations; simpl.
  - by rewrite app_nil_r.
  - destruct (contains (marker i) answer); simpl.
    + rewrite (as_dict_mapping _ Hdoc). simpl.
      by rewrite IH, citation_of_get, <-app_assoc.
    + apply IH.
Qed.

Lemma extract_citations_ok (self : AnswerGenerator) (answer : string)
    (documents : list document) :
  Forall mapping_metadata documents →
  _extract_citations self answer documents
  = Ok (cited_from answer 1 documents).
Proof. intros Hdocs. unfold _extract_citations. by rewrite extract_loop_ok. Qed.

(** Whatever the documents are, a list that extraction returns is the list
    of the cited documents' citations. *)
Lemma extract_loop_returns (answer : string) (documents : list document) :
  ∀ i citations cites,
    extract_loop answer i documents citations = Ok cites →
    cites = (citations ++ cited_from answer i documents)%list.
Proof.
  induction documents as [|doc rest IH]; intros i citations cites; simpl.
  - intros [= <-]. by rewrite app_nil_r.
  - destruct (contains (marker i) answer); [|apply IH].
    destruct (metadata doc) as [[m|v]|] eqn:Hmd;
      unfold doc_metadata; rewrite Hmd; simpl; [|done|].
    + intros ->%IH. rewrite <-app_assoc. do 2 f_equal.
      rewrite <-citation_of_get. unfold metadata_of. by rewrite Hmd.
    + intros ->%IH. rewrite <-app_assoc. do 2 f_equal.
      rewrite <-citation_of_get. unfold metadata_of. by rewrite Hmd.
Qed.

Lemma extract_citations_returns (self : AnswerGenerator) (answer : string)
    (documents : list document) (cites : list Citation.t) :
  _extract_citations self answer documents = Ok cites →
  cites = cited_from answer 1 documents.
Proof. unfold _extract_citations. by intros ->%extract_loop_returns. Qed.

Lemma elem_of_cited_from (answer : string) (documents : list document)
    (i : nat) (c : Citation.t) :
  c ∈ cited_from answer i documents ↔
  ∃ k doc, documents !! k = Some doc ∧ c = citation_of (i + k) doc
           ∧ contains (marker (i + k)) answer = true.
Proof.
  revert i. induction documents as [|d rest IH]; intros i; simpl.
  - split; [by intros ?%elem_of_nil|by intros (k & doc & ? & _)].
  - rewrite elem_of_app, IH. split.
    + intros [Hc|(k & doc & Hk & -> & Hm)].
      * destruct (contains (marker i) answer) eqn:Hm;
          [|by apply elem_of_nil in Hc].
        apply list_elem_of_singleton in Hc as ->.
        exists 0, d. by rewrite Nat.add_0_r.
      * exists (S k), doc. by rewrite <-Nat.add_succ_comm.
    + intros ([|k] & doc & Hk & -> & Hm); simpl in Hk.
      * left. injection Hk as ->. rewrite Nat.add_0_r in *. rewrite Hm.
        by apply list_elem_of_singleton.
      * right. exists k, doc. by rewrite Nat.add_succ_comm.
Qed.

Lemma cited_from_index (answer : string) (documents : list document)
    (i : nat) :
  Citation.index <$> cited_from answer i documents
  = filter (λ j, contains (marker j) answer = true)
      (seq i (length documents)).
Proof.
  revert i. induction documents as [|d rest IH]; intros i; simpl; [done|].
  rewrite fmap_app, IH, filter_cons.
  destruct (contains (marker i) answer); by case_decide.
Qed.

Lemma extract_loop_no_bracket (answer : string) (documents : list document) :
  has_char "[" answer = false →
  ∀ i citations, extract_loop answer i documents citations = Ok citations.
Proof.
  intros Hno. induction documents as [|doc rest IH]; intros i citations;
    simpl; [done|].
  destruct (contains (marker i) answer) eqn:Hm; [|apply IH].
  apply contains_has_char in Hm. congruence.
Qed.

(** ** The generator *)

Lemma generate_disabled (self : AnswerGenerator) (question : string)
    (documents : list document) (log : llm_log) :
  llm self = None →
  generate self question documents log
  = (Ok {| answer := NOT_CONFIGURED; sources := [] |}, log).
Proof. intros Hllm. unfold generate. by rewrite Hllm. Qed.

(** Whatever mode the generator is in, the sources it returns are what
    extraction yields on the answer it returns. *)
Lemma generate_sources (self : AnswerGenerator) (question : string)
    (documents : list document) (log log' : llm_log) (a : GeneratedAnswer) :
  generate self question documents log = (Ok a, log') →
  _extract_citations self (answer a) documents = Ok (sources a).
Proof.
  unfold generate. destruct (llm self) as [client|].
  - destruct (_format_context self documents) as [context|]; [|done].
    destruct (invoke client log _) as [text|]; [|done].
    destruct (_extract_citations self text documents) as [cites|] eqn:Hcites;
      [|done].
    by intros [= <- _].
  - intros [= <- _]. simpl. by apply extract_loop_no_bracket.
Qed.

(** * The claims of the specification *)

(** C1: for every list of documents and every answer text, a citation for
    document [i] (its 1-based position) is in the list of sources that
    extraction returns if and only if the literal text [[i]] occurs
    somewhere in the answer, and every citation of that index carries the
    document's index, title, authors and year.  Extraction does return
    such a list whenever each document has a mapping, or nothing, under
    [metadata]. *)
Theorem extract_citations_iff_marker (self : AnswerGenerator)
    (answer : string) (documents : list document) :
  (Forall mapping_metadata documents →
   ∃ cites, _extract_citations self answer documents = Ok cites) ∧
  ∀ cites, _extract_citations self answer documents = Ok cites →
    ∀ k doc, documents !! k = Some doc →
      ((∃ c, c ∈ cites ∧ Citation.index c = S k)
         ↔ occurs_in (marker (S k)) answer) ∧
      (∀ c, c ∈ cites → Citation.index c = S k →
         c = {| Citation.index := S k;
                Citation.title := dict_get (metadata_of doc) "title";
                Citation.authors := dict_get (metadata_of doc) "authors";
                Citation.year := dict_get (metadata_of doc) "year" |}).
Proof.
  split; [intros Hdocs; eexists; by apply extract_citations_ok|].
  intros cites ->%extract_citations_returns k doc Hk.
  assert (∀ c, c ∈ cited_from answer 1 documents → Citation.index c = S k →
               c = citation_of (S k) doc) as Hthe.
  { intros c (k' & doc' & Hk' & -> & _)%elem_of_cited_from Hidx.
    simpl in Hidx. injection Hidx as ->.
    rewrite Hk in Hk'. by injection Hk' as <-. }
  split.
  - rewrite <-contains_occurs. split.
    + intros (c & (k' & doc' & _ & -> & Hm)%elem_of_cited_from & Hidx).
      simpl in Hidx. by injection Hidx as ->.
    + intros Hm. exists (citation_of (S k) doc). split; [|done].
      apply elem_of_cited_from. by exists k, doc.
  - intros c Hc Hidx. rewrite citation_of_get. by apply Hthe.
Qed.

Lemma extract_citations_iff_marker_witness :
  ∃ cites,
    _extract_citations {| llm := None |} "As shown in [2]."
      [doc_A; doc_full] = Ok cites ∧
    ∀ k doc, [doc_A; doc_full] !! k = Some doc →
      ((∃ c, c ∈ cites ∧ Citation.index c = S k)
         ↔ occurs_in (marker (S k)) "As shown in [2].") ∧
      (∀ c, c ∈ cites → Citation.index c = S k →
         c = {| Citation.index := S k;
                Citation.title := dict_get (metadata_of doc) "title";
                Citation.authors := dict_get (metadata_of doc) "authors";
                Citation.year := dict_get (metadata_of doc) "year" |}).
Proof.
  destruct (extract_citations_iff_marker {| llm := None |}
              "As shown in [2]." [doc_A; doc_full]) as [Hreturns Hsources].
  destruct Hreturns as [cites Hcites]; [repeat constructor|].
  exists cites. split; [exact Hcites|]. exact (Hsources cites Hcites).
Defined.

(** C2: a generator constructed without a credential answers every
    question, whatever the documents, with the fixed placeholder text and no
    sources; nothing is raised and nothing is sent to the language model
    (the log of prompts is unchanged). *)
Theorem generate_without_credential (float : Type)
    (ChatOpenAI_new : string → float → string → ChatOpenAI)
    (model : string) (temperature : float) (question : string)
    (documents : list document) (log : llm_log) :
  generate (__init__ ChatOpenAI_new model temperature None)
    question documents log
  = (Ok {| answer := NOT_CONFIGURED; sources := [] |}, log).
Proof. by apply generate_disabled. Qed.

(** C3: for every list of documents the context block that formatting
    returns is the one the specification describes: document number [i]
    rendered as [[i] <title>\n<content>], the renderings joined by a blank
    line, with Unknown for a missing title and the empty string for a
    missing content.  Formatting returns exactly when each document has a
    mapping, or nothing, under [metadata]. *)
Theorem format_context_refines_spec (self : AnswerGenerator)
    (documents : list document) :
  (Forall mapping_metadata documents →
   _format_context self documents = Ok (context_block_spec documents)) ∧
  (∀ ctx, _format_context self documents = Ok ctx →
     ctx = context_block_spec documents ∧ Forall mapping_metadata documents).
Proof.
  split; [apply format_context_ok|].
  intros ctx Hctx. pose proof (format_context_returns _ _ _ Hctx) as Hdocs.
  rewrite format_context_ok in Hctx by done. by injection Hctx as <-.
Qed.

Lemma format_context_refines_spec_witness :
  _format_context {| llm := None |} [doc_full; doc_bare]
  = Ok (context_block_spec [doc_full; doc_bare]).
Proof.
  apply (proj1 (format_context_refines_spec {| llm := None |}
                  [doc_full; doc_bare])).
  repeat constructor.
Defined.

(** The block of a complete document followed by an empty one. *)
Example context_block_sample (self : AnswerGenerator) :
  _format_context self [doc_full; doc_bare]
  = Ok "[1] Cardiology
Chest pain in adults.

[2] Unknown
".
Proof. reflexivity. Qed.

(** C4, as the code has it: when no line below the header of a document
    (the rest of a title that holds a line feed, and the lines of the
    content) starts with the marker of one of the [N] documents, the lines
    of the context block that start with such a marker are the [N] header
    lines, in input order, and for each [i] from 1 to [N] exactly one line
    starts with [[i]]: the header of document [i]. *)
Theorem one_header_line_per_document (self : AnswerGenerator)
    (documents : list document) :
  Forall mapping_metadata documents →
  Forall (marker_free (length documents)) documents →
  ∃ ctx,
    _format_context self documents = Ok ctx ∧
    filter (λ l, is_marker_line (length documents) l = true) (lines ctx)
    = imap (λ k doc, header_line (S k) doc) documents ∧
    one_line_per_marker documents ctx ∧
    ∀ k doc, documents !! k = Some doc →
      starts_with_marker (S k) (header_line (S k) doc) = true ∧
      filter (λ l, starts_with_marker (S k) l = true) (lines ctx)
      = [header_line (S k) doc].
Proof.
  intros Hdocs Hfree. exists (context_block_spec documents).
  split; [by apply format_context_ok|].
  assert (∀ k doc, documents !! k = Some doc →
            filter (λ l, starts_with_marker (S k) l = true)
              (lines (context_block_spec documents))
            = [header_line (S k) doc]) as Hone.
  { intros k doc Hk.
    rewrite filter_lines_context by by rewrite starts_with_marker_empty.
    rewrite <-(concat_imap_pick (λ j d, header_line (S j) d) _ k doc Hk).
    f_equal. apply imap_ext. intros j d Hj.
    rewrite filter_cons, (filter_none _ (body_lines d)).
    - destruct (decide (j = k)) as [->|Hjk].
      + rewrite decide_True; [done|by apply header_line_marker].
      + rewrite decide_False; [done|].
        intros [= ->]%header_line_marker. done.
    - rewrite Forall_forall in Hfree.
      specialize (Hfree d (list_elem_of_lookup_2 _ _ _ Hj)).
      eapply Forall_impl; [exact Hfree|]. intros l Hl Hs. simpl in Hl.
      assert (is_marker_line (length documents) l = true) as Hm; [|congruence].
      apply is_marker_line_iff. exists (S k). split; [|done].
      apply lookup_lt_Some in Hk. lia. }
  split; [|split].
  - rewrite filter_lines_context by apply is_marker_line_empty.
    rewrite <-(concat_imap_singleton (λ k doc, header_line (S k) doc)).
    f_equal. apply imap_ext. intros k doc Hk.
    rewrite filter_cons_True, filter_none; [done| |].
    + rewrite Forall_forall in Hfree.
      specialize (Hfree doc (list_elem_of_lookup_2 _ _ _ Hk)).
      eapply Forall_impl; [exact Hfree|]. intros l Hl. simpl in Hl.
      congruence.
    + apply is_marker_line_iff. exists (S k). split.
      * apply lookup_lt_Some in Hk. lia.
      * by apply header_line_marker.
  - intros k doc Hk. exists (header_line (S k) doc). by apply Hone.
  - intros k doc Hk. split; [by apply header_line_marker|by apply Hone].
Qed.

Lemma one_header_line_per_document_witness :
  ∃ ctx,
    _format_context {| llm := None |} [doc_full; doc_bare] = Ok ctx ∧
    filter (λ l, is_marker_line (length [doc_full; doc_bare]) l = true)
      (lines ctx)
    = imap (λ k doc, header_line (S k) doc) [doc_full; doc_bare] ∧
    one_line_per_marker [doc_full; doc_bare] ctx ∧
    ∀ k doc, [doc_full; doc_bare] !! k = Some doc →
      starts_with_marker (S k) (header_line (S k) doc) = true ∧
      filter (λ l, starts_with_marker (S k) l = true) (lines ctx)
      = [header_line (S k) doc].
Proof.
  apply (one_header_line_per_document {| llm := None |}
           [doc_full; doc_bare]).
  - repeat constructor.
  - repeat (constructor; try reflexivity).
Defined.

(** The claim as the specification states it fails when a line of a content
    starts with a marker: the block of [doc_quoting] has two lines that
    start with [[1]]. *)
Lemma marker_line_in_content :
  _format_context {| llm := None |} [doc_quoting]
  = Ok ("[1] A" ++ NL ++ "x" ++ NL ++ "[1] y") ∧
  filter (λ l, starts_with_marker 1 l = true)
    (lines ("[1] A" ++ NL ++ "x" ++ NL ++ "[1] y"))
  = ["[1] A"; "[1] y"] ∧
  ¬ one_line_per_marker [doc_quoting]
      ("[1] A" ++ NL ++ "x" ++ NL ++ "[1] y").
Proof.
  split; [reflexivity|]. split; [reflexivity|].
  intros Hone. destruct (Hone 0 doc_quoting eq_refl) as [line Hline].
  vm_compute in Hline. discriminate.
Qed.

(** C5: the returned sources follow the input order of the documents: their
    indices are the positions [1..N], in increasing order, whose marker
    occurs in the answer, wherever in the text the markers stand.  For two
    documents and the answer [See [1] and [2].] the sources are the two
    citations, index 1 then index 2, and so they are when the text names
    them the other way round. *)
Theorem sources_follow_input_order (self : AnswerGenerator) :
  (∀ answer documents,
     (Forall mapping_metadata documents →
      ∃ cites, _extract_citations self answer documents = Ok cites) ∧
     ∀ cites, _extract_citations self answer documents = Ok cites →
       Citation.index <$> cites
       = filter (λ i, contains (marker i) answer = true)
           (seq 1 (length documents)) ∧
       StronglySorted lt (Citation.index <$> cites)) ∧
  (∀ d1 d2, mapping_metadata d1 → mapping_metadata d2 →
     _extract_citations self "See [1] and [2]." [d1; d2]
     = Ok [citation_of 1 d1; citation_of 2 d2] ∧
     _extract_citations self "See [2] and [1]." [d1; d2]
     = Ok [citation_of 1 d1; citation_of 2 d2]) ∧
  _extract_citations self "See [1] and [2]." [doc_A; doc_B]
  = Ok [ {| Citation.index := 1; Citation.title := PStr "A";
            Citation.authors := PNone; Citation.year := PNone |};
         {| Citation.index := 2; Citation.title := PStr "B";
            Citation.authors := PNone; Citation.year := PNone |} ].
Proof.
  split; [|split; [|done]].
  - intros answer documents.
    split; [intros Hdocs; eexists; by apply extract_citations_ok|].
    intros cites ->%extract_citations_returns.
    rewrite cited_from_index. split; [done|].
    apply filter_sorted, seq_sorted.
  - intros d1 d2 Hd1 Hd2.
    by rewrite !extract_citations_ok by by repeat constructor.
Qed.

Lemma sources_follow_input_order_witness :
  (∃ cites,
     _extract_citations {| llm := None |} "Both [2] and [1] agree."
       [doc_full; doc_bare] = Ok cites ∧
     Citation.index <$> cites
     = filter (λ i, contains (marker i) "Both [2] and [1] agree." = true)
         (seq 1 (length [doc_full; doc_bare])) ∧
     StronglySorted lt (Citation.index <$> cites)) ∧
  _extract_citations {| llm := None |} "See [2] and [1]."
    [doc_bare; doc_full]
  = Ok [citation_of 1 doc_bare; citation_of 2 doc_full].
Proof.
  destruct (sources_follow_input_order {| llm := None |})
    as (Horder & Hexample & _).
  split.
  - destruct (Horder "Both [2] and [1] agree." [doc_full; doc_bare])
      as [Hreturns Hsources].
    destruct Hreturns as [cites Hcites]; [repeat constructor|].
    exists cites. split; [exact Hcites|]. exact (Hsources cites Hcites).
  - apply (Hexample doc_bare doc_full); exact I.
Defined.

(** C6: markers beyond the number of documents are ignored: every returned
    citation has an index between 1 and the number of documents, so an
    answer that contains [[k]] with [k] greater than that number gets no
    citation of index [k]; with two documents and [[3]] in the text, no
    citation has index 3. *)
Theorem out_of_range_markers_ignored (self : AnswerGenerator)
    (answer : string) (documents : list document) :
  (Forall mapping_metadata documents →
   ∃ cites, _extract_citations self answer documents = Ok cites) ∧
  ∀ cites, _extract_citations self answer documents = Ok cites →
    (∀ c, c ∈ cites → (1 ≤ Citation.index c ≤ length documents)%nat) ∧
    (∀ k, (length documents < k)%nat → occurs_in (marker k) answer →
       ¬ ∃ c, c ∈ cites ∧ Citation.index c = k).
Proof.
  split; [intros Hdocs; eexists; by apply extract_citations_ok|].
  intros cites ->%extract_citations_returns.
  assert (∀ c, c ∈ cited_from answer 1 documents →
               (1 ≤ Citation.index c ≤ length documents)%nat) as Hrange.
  { intros c (k & doc & Hk & -> & _)%elem_of_cited_from.
    apply lookup_lt_Some in Hk. simpl. lia. }
  split; [done|].
  intros k Hk _ (c & Hc & <-). apply Hrange in Hc. lia.
Qed.

Lemma out_of_range_markers_ignored_witness :
  ∃ cites,
    _extract_citations {| llm := None |} "See [1] and [3]." [doc_A; doc_B]
    = Ok cites ∧
    (∀ c, c ∈ cites → (1 ≤ Citation.index c ≤ length [doc_A; doc_B])%nat) ∧
    (∀ k, (length [doc_A; doc_B] < k)%nat →
       occurs_in (marker k) "See [1] and [3]." →
       ¬ ∃ c, c ∈ cites ∧ Citation.index c = k).
Proof.
  destruct (out_of_range_markers_ignored {| llm := None |}
              "See [1] and [3]." [doc_A; doc_B]) as [Hreturns Hsources].
  destruct Hreturns as [cites Hcites]; [repeat constructor|].
  exists cites. split; [exact Hcites|]. exact (Hsources cites Hcites).
Defined.

(** The same on the example of the specification, evaluated. *)
Example marker_3_with_two_documents (self : AnswerGenerator) :
  _extract_citations self "See [1] and [3]." [doc_A; doc_B]
  = Ok [ {| Citation.index := 1; Citation.title := PStr "A";
            Citation.authors := PNone; Citation.year := PNone |} ].
Proof. reflexivity. Qed.

(** C7: for the empty list of documents the context block is the empty
    string and extraction returns the empty list of sources for every
    answer text; both are results, not errors. *)
Theorem empty_documents (self : AnswerGenerator) :
  _format_context self [] = Ok "" ∧
  ∀ answer, _extract_citations self answer [] = Ok [].
Proof. by split. Qed.

(** C8: documents that lack the [content] key, the [metadata] key, or keys
    inside the metadata, are tolerated: formatting returns a context block
    whose entry for such a document has the empty string in place of a
    missing content and Unknown in place of a missing title, and extraction
    returns a list of sources for every answer; neither raises. *)
Theorem malformed_documents_tolerated (self : AnswerGenerator)
    (documents : list document) :
  Forall mapping_metadata documents →
  (∃ parts,
     format_loop 1 documents [] = Ok parts ∧
     _format_context self documents = Ok (join (NL ++ NL) parts) ∧
     ∀ k doc, documents !! k = Some doc →
       ∃ shown body,
         parts !! k = Some ("[" ++ pretty (S k) ++ "] " ++ shown ++ NL ++ body)
         ∧ (content doc = None → body = "")
         ∧ (metadata doc = None → shown = "Unknown")
         ∧ (∀ m, metadata doc = Some (ODict m) → m !! "title" = None →
              shown = "Unknown")) ∧
  (∀ answer, ∃ cites, _extract_citations self answer documents = Ok cites).
Proof.
  intros Hdocs. split.
  - exists (imap (λ k doc, rendering_spec (S k) doc) documents).
    split; [by rewrite format_loop_ok|].
    split; [by apply format_context_ok|].
    intros k doc Hk. exists (title_spec doc), (content_spec doc).
    split; [by rewrite list_lookup_imap, Hk|].
    unfold content_spec, title_spec, metadata_of.
    split; [by intros ->|]. split; [intros ->|intros m -> Hm].
    + by rewrite lookup_empty.
    + by rewrite Hm.
  - intros answer. eexists. by apply extract_citations_ok.
Qed.

Lemma malformed_documents_tolerated_witness :
  (∃ parts,
     format_loop 1 [doc_bare; Document None (Some (ODict ∅))] [] = Ok parts ∧
     _format_context {| llm := None |}
       [doc_bare; Document None (Some (ODict ∅))]
     = Ok (join (NL ++ NL) parts) ∧
     ∀ k doc, [doc_bare; Document None (Some (ODict ∅))] !! k = Some doc →
       ∃ shown body,
         parts !! k = Some ("[" ++ pretty (S k) ++ "] " ++ shown ++ NL ++ body)
         ∧ (content doc = None → body = "")
         ∧ (metadata doc = None → shown = "Unknown")
         ∧ (∀ m, metadata doc = Some (ODict m) → m !! "title" = None →
              shown = "Unknown")) ∧
  (∀ answer, ∃ cites,
     _extract_citations {| llm := None |} answer
       [doc_bare; Document None (Some (ODict ∅))] = Ok cites).
Proof.
  apply (malformed_documents_tolerated {| llm := None |}
           [doc_bare; Document None (Some (ODict ∅))]).
  repeat constructor.
Defined.

(** Where the tolerance ends: a document whose [metadata] is present but is
    not a mapping makes [.get] fail, in formatting always and in extraction
    when the document is cited. *)
Example non_mapping_metadata_raises (self : AnswerGenerator) :
  _format_context self [Document (Some (PStr "x")) (Some (OVal PNone))]
  = Raise AttributeError ∧
  _extract_citations self "[1]"
    [Document (Some (PStr "x")) (Some (OVal PNone))]
  = Raise AttributeError ∧
  _extract_citations self "no marker"
    [Document (Some (PStr "x")) (Some (OVal PNone))]
  = Ok [].
Proof. by repeat split. Qed.

(** C9: extraction is a function of the answer text and the documents
    alone: it does not depend on the generator it is called on, and two
    calls of [generate] on the same documents, by any generators, with any
    questions and any history of the provider, that return the same answer
    text return the same sources. *)
Theorem extraction_depends_on_answer_and_documents_only :
  (∀ self1 self2 answer documents,
     _extract_citations self1 answer documents
     = _extract_citations self2 answer documents) ∧
  (∀ self1 self2 question1 question2 documents log1 log2 log1' log2' a1 a2,
     generate self1 question1 documents log1 = (Ok a1, log1') →
     generate self2 question2 documents log2 = (Ok a2, log2') →
     answer a1 = answer a2 →
     sources a1 = sources a2).
Proof.
  split; [done|].
  intros self1 self2 q1 q2 documents log1 log2 log1' log2' a1 a2 H1 H2 Ha.
  apply generate_sources in H1, H2.
  rewrite Ha in H1. unfold _extract_citations in *. congruence.
Qed.

Lemma extraction_depends_on_answer_and_documents_only_witness :
  let a1 := {| answer := "See [1].";
               sources := [citation_of 1 doc_A] |} in
  generate {| llm := Some (fixed_reply "See [1].") |} "first question"
    [doc_A; doc_B] [] = (Ok a1, [prompt_format (context_block_spec
                                   [doc_A; doc_B]) "first question"]) ∧
  sources a1 = [citation_of 1 doc_A].
Proof.
  intros a1. split; [reflexivity|].
  apply (proj2 extraction_depends_on_answer_and_documents_only
           {| llm := Some (fixed_reply "See [1].") |}
           {| llm := Some {| invoke := λ log _,
                               match log with
                               | [] => Raise (LLMError "cold start")
                               | _ => Ok "See [1]."
                               end |} |}
           "first question" "second question" [doc_A; doc_B]
           [] ["an earlier prompt"]
           [prompt_format (context_block_spec [doc_A; doc_B])
              "first question"]
           ["an earlier prompt";
            prompt_format (context_block_spec [doc_A; doc_B])
              "second question"]
           a1
           {| answer := "See [1]."; sources := [citation_of 1 doc_A] |});
    reflexivity.
Defined.

(** C10: every falsy credential, the empty string as well as [None], puts
    the generator in degraded mode when it is constructed: [generate] then
    returns the placeholder answer and no sources for every input, and
    sends nothing to the language model. *)
Theorem falsy_credential_degraded (float : Type)
    (ChatOpenAI_new : string → float → string → ChatOpenAI)
    (model : string) (temperature : float) (api_key : option string)
    (question : string) (documents : list document) (log : llm_log) :
  truthy api_key = false →
  llm (__init__ ChatOpenAI_new model temperature api_key) = None ∧
  generate (__init__ ChatOpenAI_new model temperature api_key)
    question documents log
  = (Ok {| answer := NOT_CONFIGURED; sources := [] |}, log).
Proof.
  intros Hkey.
  assert (llm (__init__ ChatOpenAI_new model temperature api_key) = None)
    as Hllm.
  { unfold __init__. simpl. destruct api_key; [by rewrite Hkey|done]. }
  split; [done|]. by apply generate_disabled.
Qed.

Lemma falsy_credential_degraded_witness :
  truthy (Some "") = false ∧
  llm (__init__ sample_provider "gpt-4" (3, -1)%Z (Some "")) = None ∧
  generate (__init__ sample_provider "gpt-4" (3, -1)%Z (Some ""))
    "What causes chest pain?" [doc_A; doc_B] []
  = (Ok {| answer := NOT_CONFIGURED; sources := [] |}, []).
Proof.
  split; [reflexivity|].
  apply (falsy_credential_degraded (Z * Z) sample_provider "gpt-4" (3, -1)%Z
           (Some "") "What causes chest pain?" [doc_A; doc_B] []).
  reflexivity.
Defined.

(** With a non-empty credential the client is built and asked. *)
Example configured_generator_asks :
  generate (__init__ sample_provider "gpt-4" (3, -1)%Z (Some "sk-test"))
    "What causes chest pain?" [doc_A; doc_B] []
  = (Ok {| answer := "See [1]."; sources := [citation_of 1 doc_A] |},
     [prompt_format (context_block_spec [doc_A; doc_B])
        "What causes chest pain?"]).
Proof. reflexivity. Qed.

(** * Further properties of the generator *)

(** ** How formatting fails *)

Lemma format_loop_raises (documents : list document) :
  ∀ i parts e, format_loop i documents parts = Raise e → e = AttributeError.
Proof.
  induction documents as [|doc rest IH]; intros i parts e; simpl; [done|].
  unfold doc_metadata.
  destruct (metadata doc) as [[m|v]|]; simpl; [apply IH|congruence|apply IH].
Qed.

Lemma format_context_malformed (self : AnswerGenerator)
    (documents : list document) :
  Exists (λ doc, ¬ mapping_metadata doc) documents →
  _format_context self documents = Raise AttributeError.
Proof.
  intros Hbad%Exists_not_Forall.
  destruct (_format_context self documents) as [ctx|e] eqn:Hctx.
  - by apply format_context_returns in Hctx.
  - unfold _format_context in Hctx.
    destruct (format_loop 1 documents []) as [parts|e'] eqn:Hparts; [done|].
    apply format_loop_raises in Hparts as ->. simpl in Hctx. congruence.
Qed.

(** ** One call of [generate] *)

(** X1: With a client, well-formed documents and a provider that replies, the
    generator sends one prompt, the template filled with the context block
    and the question, returns the reply unmodified as the answer and what
    extraction finds in it as the sources. *)
Theorem generate_configured_returns (self : AnswerGenerator)
    (client : ChatOpenAI) (question : string) (documents : list document)
    (log : llm_log) (text : string) :
  llm self = Some client →
  Forall mapping_metadata documents →
  invoke client log (prompt_format (context_block_spec documents) question)
  = Ok text →
  ∃ ctx cites,
    _format_context self documents = Ok ctx ∧
    _extract_citations self text documents = Ok cites ∧
    generate self question documents log
    = (Ok {| answer := text; sources := cites |},
       (log ++ [prompt_format ctx question])%list).
Proof.
  intros Hllm Hdocs Hreply.
  exists (context_block_spec documents), (cited_from text 1 documents).
  split; [by apply format_context_ok|].
  split; [by apply extract_citations_ok|].
  unfold generate.
  by rewrite Hllm, format_context_ok, Hreply, extract_citations_ok.
Qed.

Lemma generate_configured_returns_witness :
  ∃ ctx cites,
    _format_context {| llm := Some (fixed_reply "See [1].") |}
      [doc_A; doc_B] = Ok ctx ∧
    _extract_citations {| llm := Some (fixed_reply "See [1].") |}
      "See [1]." [doc_A; doc_B] = Ok cites ∧
    generate {| llm := Some (fixed_reply "See [1].") |} "Which one?"
      [doc_A; doc_B] ["an earlier prompt"]
    = (Ok {| answer := "See [1]."; sources := cites |},
       ["an earlier prompt"; prompt_format ctx "Which one?"]).
Proof.
  apply (generate_configured_returns
           {| llm := Some (fixed_reply "See [1].") |}
           (fixed_reply "See [1].") "Which one?" [doc_A; doc_B]
           ["an earlier prompt"] "See [1].");
    [reflexivity|repeat constructor|reflexivity].
Defined.

(** X2: A failure of the provider is not caught and not retried: the exception
    comes out of [generate] as it is, after exactly one prompt was sent. *)
Theorem generate_provider_failure (self : AnswerGenerator)
    (client : ChatOpenAI) (question : string) (documents : list document)
    (log : llm_log) (e : exn) :
  llm self = Some client →
  Forall mapping_metadata documents →
  invoke client log (prompt_format (context_block_spec documents) question)
  = Raise e →
  generate self question documents log
  = (Raise e,
     (log ++ [prompt_format (context_block_spec documents) question])%list).
Proof.
  intros Hllm Hdocs Hreply. unfold generate.
  by rewrite Hllm, format_context_ok, Hreply.
Qed.

Lemma generate_provider_failure_witness :
  generate {| llm := Some {| invoke := λ _ _, Raise (LLMError "quota") |} |}
    "Which one?" [doc_A; doc_B] []
  = (Raise (LLMError "quota"),
     [prompt_format (context_block_spec [doc_A; doc_B]) "Which one?"]).
Proof.
  apply (generate_provider_failure
           {| llm := Some {| invoke := λ _ _, Raise (LLMError "quota") |} |}
           {| invoke := λ _ _, Raise (LLMError "quota") |}
           "Which one?" [doc_A; doc_B] [] (LLMError "quota"));
    [reflexivity|repeat constructor|reflexivity].
Defined.

(** X3: A document whose [metadata] is not a mapping makes a configured
    generator fail with [AttributeError] before anything is sent to the
    provider, whether the answer would have cited that document or not. *)
Theorem generate_malformed_before_invocation (self : AnswerGenerator)
    (client : ChatOpenAI) (question : string) (documents : list document)
    (log : llm_log) :
  llm self = Some client →
  Exists (λ doc, ¬ mapping_metadata doc) documents →
  generate self question documents log = (Raise AttributeError, log).
Proof.
  intros Hllm Hbad. unfold generate.
  by rewrite Hllm, format_context_malformed.
Qed.

Lemma generate_malformed_before_invocation_witness :
  generate {| llm := Some (fixed_reply "See [1].") |} "Which one?"
    [doc_A; Document (Some (PStr "x")) (Some (OVal PNone))] []
  = (Raise AttributeError, []).
Proof.
  apply (generate_malformed_before_invocation
           {| llm := Some (fixed_reply "See [1].") |}
           (fixed_reply "See [1].") "Which one?"
           [doc_A; Document (Some (PStr "x")) (Some (OVal PNone))] []);
    [reflexivity|].
  apply Exists_cons_tl, Exists_cons_hd. simpl. tauto.
Defined.

(** X4: Every outcome of [generate]: either nothing was sent (degraded mode, or
    a formatting failure), or exactly one prompt was appended to what had
    been sent before, and then the result is the provider's: its failure,
    or its reply as the answer, untouched.  Extraction never fails inside
    [generate]. *)
Theorem generate_outcomes (self : AnswerGenerator) (question : string)
    (documents : list document) (log log' : llm_log)
    (r : result GeneratedAnswer) :
  generate self question documents log = (r, log') →
  (log' = log ∧
   ((llm self = None ∧ r = Ok {| answer := NOT_CONFIGURED; sources := [] |})
    ∨ (llm self ≠ None ∧ r = Raise AttributeError
       ∧ ¬ Forall mapping_metadata documents))) ∨
  (∃ client ctx,
     llm self = Some client ∧
     _format_context self documents = Ok ctx ∧
     log' = (log ++ [prompt_format ctx question])%list ∧
     match r with
     | Ok a =>
         invoke client log (prompt_format ctx question) = Ok (answer a) ∧
         _extract_citations self (answer a) documents = Ok (sources a)
     | Raise e => invoke client log (prompt_format ctx question) = Raise e
     end).
Proof.
  unfold generate. destruct (llm self) as [client|] eqn:Hllm.
  - destruct (_format_context self documents) as [ctx|e] eqn:Hctx.
    + pose proof (format_context_returns _ _ _ Hctx) as Hdocs.
      destruct (invoke client log _) as [text|e] eqn:Hreply.
      * rewrite extract_citations_ok by done. intros [= <- <-].
        right. exists client, ctx. repeat split; try done.
        simpl. by apply extract_citations_ok.
      * intros [= <- <-]. right. by exists client, ctx.
    + intros [= <- <-]. left. split; [done|]. right. split; [done|].
      unfold _format_context in Hctx.
      destruct (format_loop 1 documents []) as [parts|e'] eqn:Hparts; [done|].
      simpl in Hctx. injection Hctx as <-.
      split; [by rewrite (format_loop_raises _ _ _ _ Hparts)|].
      intros Hdocs. by rewrite format_loop_ok in Hparts.
  - intros [= <- <-]. left. split; [done|]. by left.
Qed.

Lemma generate_outcomes_witness :
  ∃ client ctx,
    Some (fixed_reply "See [2].") = Some client ∧
    _format_context {| llm := Some (fixed_reply "See [2].") |}
      [doc_A; doc_full] = Ok ctx ∧
    ["earlier"; prompt_format (context_block_spec [doc_A; doc_full]) "Why?"]
    = (["earlier"] ++ [prompt_format ctx "Why?"])%list ∧
    invoke client ["earlier"] (prompt_format ctx "Why?") = Ok "See [2]." ∧
    _extract_citations {| llm := Some (fixed_reply "See [2].") |}
      "See [2]." [doc_A; doc_full] = Ok [citation_of 2 doc_full].
Proof.
  destruct (generate_outcomes {| llm := Some (fixed_reply "See [2].") |}
              "Why?" [doc_A; doc_full] ["earlier"]
              ["earlier";
               prompt_format (context_block_spec [doc_A; doc_full]) "Why?"]
              (Ok {| answer := "See [2].";
                     sources := [citation_of 2 doc_full] |}) eq_refl)
    as [[Hlog _]|Hsent].
  - discriminate Hlog.
  - exact Hsent.
Defined.

(** ** How extraction fails *)

Lemma extract_loop_raises_iff (answer : string) (documents : list document) :
  ∀ i citations e,
    extract_loop answer i documents citations = Raise e ↔
    e = AttributeError ∧
    ∃ k doc, documents !! k = Some doc ∧
             contains (marker (i + k)) answer = true ∧
             ¬ mapping_metadata doc.
Proof.
  induction documents as [|doc rest IH]; intros i citations e; simpl.
  - split; [done|]. by intros (_ & k & d & ? & _).
  - assert ((∃ k d, rest !! k = Some d ∧
                    contains (marker (S i + k)) answer = true ∧
                    ¬ mapping_metadata d)
            → ∃ k d, (doc :: rest) !! k = Some d ∧
                     contains (marker (i + k)) answer = true ∧
                     ¬ mapping_metadata d) as Hlater.
    { intros (k & d & Hk & Hm & Hd). exists (S k), d.
      by rewrite <-Nat.add_succ_comm. }
    destruct (contains (marker i) answer) eqn:Hcited.
    + unfold doc_metadata, mapping_metadata.
      destruct (metadata doc) as [[m|v]|] eqn:Hmd; simpl.
      * rewrite IH. split.
        -- intros [-> Hex]. split; [done|]. by apply Hlater.
        -- intros [-> ([|k] & d & Hk & Hm & Hd)]; simpl in Hk.
           ++ injection Hk as <-. unfold mapping_metadata in Hd.
              by rewrite Hmd in Hd.
           ++ split; [done|]. exists k, d.
              by rewrite Nat.add_succ_comm.
      * split.
        -- intros [= <-]. split; [done|]. exists 0, doc.
           rewrite Nat.add_0_r. repeat split; [done|].
           unfold mapping_metadata. rewrite Hmd. tauto.
        -- by intros [-> _].
      * rewrite IH. split.
        -- intros [-> Hex]. split; [done|]. by apply Hlater.
        -- intros [-> ([|k] & d & Hk & Hm & Hd)]; simpl in Hk.
           ++ injection Hk as <-. unfold mapping_metadata in Hd.
              by rewrite Hmd in Hd.
           ++ split; [done|]. exists k, d.
              by rewrite Nat.add_succ_comm.
    + rewrite IH. split.
      * intros [-> Hex]. split; [done|]. by apply Hlater.
      * intros [-> ([|k] & d & Hk & Hm & Hd)]; simpl in Hk.
        -- injection Hk as <-. rewrite Nat.add_0_r in Hm. congruence.
        -- split; [done|]. exists k, d. by rewrite Nat.add_succ_comm.
Qed.

(** X5: Extraction fails exactly when the answer holds the marker of a document
    whose [metadata] is not a mapping, and then with [AttributeError]; a
    malformed document that the answer does not cite is passed over. *)
Theorem extract_citations_raises_iff (self : AnswerGenerator)
    (answer : string) (documents : list document) (e : exn) :
  _extract_citations self answer documents = Raise e ↔
  e = AttributeError ∧
  ∃ k doc, documents !! k = Some doc ∧
           occurs_in (marker (S k)) answer ∧
           ¬ mapping_metadata doc.
Proof.
  unfold _extract_citations. rewrite extract_loop_raises_iff.
  by setoid_rewrite contains_occurs.
Qed.

(** X6: An answer without an opening bracket has no sources, whatever the
    documents are, malformed ones included. *)
Theorem answer_without_bracket_cites_nothing (self : AnswerGenerator)
    (answer : string) (documents : list document) :
  has_char "[" answer = false →
  _extract_citations self answer documents = Ok [].
Proof. intros Hno. by apply extract_loop_no_bracket. Qed.

Lemma answer_without_bracket_cites_nothing_witness :
  _extract_citations {| llm := None |} "No reference (1) applies]."
    [doc_A; Document None (Some (OVal (PInt 3)))] = Ok [].
Proof.
  apply (answer_without_bracket_cites_nothing {| llm := None |}
           "No reference (1) applies]."
           [doc_A; Document None (Some (OVal (PInt 3)))]).
  reflexivity.
Defined.

(** X7: However often the answer repeats a marker, the sources hold each
    document at most once, and never more citations than documents. *)
Theorem sources_distinct_and_bounded (self : AnswerGenerator)
    (answer : string) (documents : list document)
    (cites : list Citation.t) :
  _extract_citations self answer documents = Ok cites →
  NoDup (Citation.index <$> cites) ∧
  (length cites ≤ length documents)%nat.
Proof.
  intros ->%extract_citations_returns. split.
  - rewrite cited_from_index. apply NoDup_filter, NoDup_seq.
  - rewrite <-(length_fmap Citation.index), cited_from_index.
    etrans; [apply length_filter|]. by rewrite length_seq.
Qed.

Lemma sources_distinct_and_bounded_witness :
  NoDup (Citation.index <$> [citation_of 1 doc_A]) ∧
  (length [citation_of 1 doc_A] ≤ length [doc_A; doc_B])%nat.
Proof.
  apply (sources_distinct_and_bounded {| llm := None |}
           "[1] says so; see [1] again, and [1]." [doc_A; doc_B]
           [citation_of 1 doc_A]).
  reflexivity.
Defined.

(** ** Markers do not collide *)

Lemma contains_skip (c : ascii) (p before s : string) :
  has_char c before = false →
  contains (String c p) (before ++ s) = contains (String c p) s.
Proof.
  induction before as [|d before IH]; cbn [has_char]; [done|].
  intros [Hcd Hbefore]%orb_false_iff. rewrite app_String. cbn [contains].
  rewrite IH by done. simpl.
  destruct (Ascii.ascii_dec c d) as [->|]; [|done].
  by rewrite Ascii.eqb_refl in Hcd.
Qed.

Lemma contains_at_head (c : ascii) (p r : string) :
  has_char c r = false →
  contains (String c p) (String c r) = String.prefix (String c p) (String c r).
Proof.
  intros Hr. cbn [contains].
  destruct (contains (String c p) r) eqn:Hin; [|by rewrite orb_false_r].
  apply contains_has_char in Hin. congruence.
Qed.

Lemma marker_in_single (i j : nat) (before after : string) :
  has_char "[" before = false → has_char "[" after = false →
  contains (marker i) (before ++ marker j ++ after) = true ↔ i = j.
Proof.
  intros Hbefore Hafter. split.
  - unfold marker.
    change ("[" ++ pretty i ++ "]") with (String "[" (pretty i ++ "]")).
    rewrite contains_skip by done.
    replace (("[" ++ pretty j ++ "]") ++ after)
      with (String "[" (pretty j ++ String "]" after))
      by (by rewrite !string_app_assoc).
    rewrite contains_at_head
      by (rewrite has_char_app, pretty_nat_other by done; exact Hafter).
    simpl. destruct (Ascii.ascii_dec "[" "[") as [_|]; [|done].
    intros Hp. apply (inj pretty).
    by apply prefix_same_delimiter in Hp; [|apply pretty_nat_other..].
  - intros ->. apply contains_occurs. by exists before, after.
Qed.

Lemma cited_from_none (answer : string) (documents : list document) :
  ∀ i, (∀ k, (k < length documents)%nat →
             contains (marker (i + k)) answer = false) →
       cited_from answer i documents = [].
Proof.
  induction documents as [|doc rest IH]; intros i Hnone; simpl; [done|].
  rewrite <-(Nat.add_0_r i) at 1. rewrite Hnone by (simpl; lia). simpl.
  apply IH. intros k Hk. rewrite Nat.add_succ_comm.
  apply Hnone. simpl. lia.
Qed.

Lemma cited_from_single (answer : string) (documents : list document) :
  ∀ i k doc,
    documents !! k = Some doc →
    (∀ j, contains (marker (i + j)) answer = true ↔ j = k) →
    cited_from answer i documents = [citation_of (i + k) doc].
Proof.
  induction documents as [|d rest IH]; intros i k doc Hk Honly; [done|].
  simpl. destruct k as [|k]; simpl in Hk.
  - injection Hk as ->.
    rewrite <-(Nat.add_0_r i) at 1. rewrite (proj2 (Honly 0) eq_refl).
    rewrite Nat.add_0_r. simpl. f_equal.
    apply cited_from_none. intros j _.
    destruct (contains (marker (S i + j)) answer) eqn:Hj; [|done].
    rewrite Nat.add_succ_comm in Hj. by apply Honly in Hj.
  - destruct (contains (marker i) answer) eqn:Hi.
    { rewrite <-(Nat.add_0_r i) in Hi. by apply Honly in Hi. }
    simpl. rewrite <-Nat.add_succ_comm. apply IH; [done|].
    intros j. rewrite Nat.add_succ_comm, Honly. split; [by intros [= ->]|].
    by intros ->.
Qed.

(** X8: An answer whose only opening bracket is that of the marker of document
    [i] cites that document and no other: [[12]] cites neither document 1
    nor document 2.  The other documents need not even be well formed. *)
Theorem single_marker_cites_single_document (self : AnswerGenerator)
    (documents : list document) (k : nat) (doc : document)
    (before after : string) :
  documents !! k = Some doc →
  mapping_metadata doc →
  has_char "[" before = false →
  has_char "[" after = false →
  _extract_citations self (before ++ marker (S k) ++ after) documents
  = Ok [ {| Citation.index := S k;
            Citation.title := dict_get (metadata_of doc) "title";
            Citation.authors := dict_get (metadata_of doc) "authors";
            Citation.year := dict_get (metadata_of doc) "year" |} ].
Proof.
  intros Hk Hdoc Hbefore Hafter.
  destruct (_extract_citations self (before ++ marker (S k) ++ after)
              documents) as [cites|e] eqn:Hcites.
  - apply extract_citations_returns in Hcites as ->.
    rewrite citation_of_get. f_equal.
    apply (cited_from_single _ _ 1 k doc Hk).
    intros j. rewrite marker_in_single by done. simpl.
    split; [by intros [= ->]|by intros ->].
  - unfold _extract_citations in Hcites.
    apply extract_loop_raises_iff in Hcites
      as (_ & k' & doc' & Hk' & Hm & Hbad).
    change (1 + k') with (S k') in Hm.
    apply marker_in_single in Hm; [|done..].
    injection Hm as ->. rewrite Hk in Hk'. by injection Hk' as <-.
Qed.

Lemma single_marker_cites_single_document_witness :
  _extract_citations {| llm := None |}
    ("As " ++ marker 2 ++ " shows.")
    [Document None (Some (OVal PNone)); doc_full]
  = Ok [ {| Citation.index := 2;
            Citation.title := dict_get (metadata_of doc_full) "title";
            Citation.authors := dict_get (metadata_of doc_full) "authors";
            Citation.year := dict_get (metadata_of doc_full) "year" |} ].
Proof.
  apply (single_marker_cites_single_document {| llm := None |}
           [Document None (Some (OVal PNone)); doc_full] 1 doc_full
           "As " " shows.");
    [reflexivity|exact I|reflexivity|reflexivity].
Defined.

(** ** Shorter and longer lists of documents *)

Lemma cited_from_app (answer : string) (docs1 docs2 : list document) :
  ∀ i, cited_from answer i (docs1 ++ docs2)
       = (cited_from answer i docs1
            ++ cited_from answer (i + length docs1) docs2)%list.
Proof.
  induction docs1 as [|doc rest IH]; intros i; simpl.
  - by rewrite Nat.add_0_r.
  - by rewrite IH, <-app_assoc, Nat.add_succ_comm.
Qed.

Lemma extract_loop_app (answer : string) (docs1 docs2 : list document) :
  ∀ i citations,
    extract_loop answer i (docs1 ++ docs2) citations
    = extract_loop answer i docs1 citations
        ≫= extract_loop answer (i + length docs1) docs2.
Proof.
  induction docs1 as [|doc rest IH]; intros i citations; simpl.
  - by rewrite Nat.add_0_r.
  - rewrite <-Nat.add_succ_comm.
    destruct (contains (marker i) answer); [|apply IH].
    destruct (as_dict (doc_metadata doc)) as [md|e]; [|done]. apply IH.
Qed.

Lemma filter_all {A : Type} (P : A → Prop) `{!∀ x, Decision (P x)}
    (l : list A) :
  Forall P l → filter P l = l.
Proof.
  induction 1 as [|x l Hx _ IH]; [done|].
  by rewrite filter_cons_True, IH.
Qed.

(** X9: Cutting the list of documents short cuts the sources short and changes
    nothing else: when extraction over a list returns, extraction over its
    first documents returns the citations whose index is within them, as
    they were. *)
Theorem extraction_over_first_documents (self : AnswerGenerator)
    (answer : string) (docs1 docs2 : list document)
    (cites : list Citation.t) :
  _extract_citations self answer (docs1 ++ docs2) = Ok cites →
  _extract_citations self answer docs1
  = Ok (filter (λ c, (Citation.index c ≤ length docs1)%nat) cites).
Proof.
  intros Hcites. pose proof Hcites as Hall.
  apply extract_citations_returns in Hall as ->.
  unfold _extract_citations in *. rewrite extract_loop_app in Hcites.
  destruct (extract_loop answer 1 docs1 []) as [cites1|e] eqn:Hfirst;
    [|done].
  apply extract_loop_returns in Hfirst as ->. simpl. f_equal.
  rewrite cited_from_app, filter_app, filter_all, filter_none.
  - by rewrite app_nil_r.
  - apply Forall_forall.
    intros c (k & doc & _ & -> & _)%elem_of_cited_from. simpl. lia.
  - apply Forall_forall.
    intros c (k & doc & Hk%lookup_lt_Some & -> & _)%elem_of_cited_from.
    simpl. lia.
Qed.

Lemma extraction_over_first_documents_witness :
  _extract_citations {| llm := None |} "Both [1] and [3]." [doc_A; doc_B]
  = Ok (filter (λ c, (Citation.index c ≤ length [doc_A; doc_B])%nat)
          [citation_of 1 doc_A; citation_of 3 doc_full]).
Proof.
  apply (extraction_over_first_documents {| llm := None |}
           "Both [1] and [3]." [doc_A; doc_B] [doc_full]
           [citation_of 1 doc_A; citation_of 3 doc_full]).
  reflexivity.
Defined.

Lemma join_snoc (sep : string) (parts : list string) (p : string) :
  parts ≠ [] → join sep (parts ++ [p]) = join sep parts ++ sep ++ p.
Proof.
  induction parts as [|q [|q' rest] IH]; [done|done|].
  intros _. change (join sep ((q :: q' :: rest) ++ [p]))
    with (q ++ sep ++ join sep ((q' :: rest) ++ [p])).
  rewrite IH by done.
  change (join sep (q :: q' :: rest)) with (q ++ sep ++ join sep (q' :: rest)).
  by rewrite !string_app_assoc.
Qed.

(** X10: A further document at the end of the list leaves the block of the
    earlier ones as it is: its entry, numbered after them, is added after a
    blank line. *)
Theorem context_block_grows_at_the_end (self : AnswerGenerator)
    (documents : list document) (doc : document) (ctx : string) :
  documents ≠ [] →
  _format_context self documents = Ok ctx →
  mapping_metadata doc →
  _format_context self (documents ++ [doc])
  = Ok (ctx ++ NL ++ NL
          ++ entry (S (length documents))
               (dict_get_default (metadata_of doc) "title" (PStr "Unknown"))
               (doc_content doc)).
Proof.
  intros Hne Hctx Hdoc.
  pose proof (format_context_returns _ _ _ Hctx) as Hdocs.
  rewrite format_context_ok in Hctx by done. injection Hctx as <-.
  rewrite format_context_ok by (apply Forall_app; by repeat constructor).
  f_equal. unfold context_block_spec.
  rewrite imap_app. cbn [imap].
  rewrite join_snoc by (by destruct documents).
  by rewrite Nat.add_0_r, entry_rendering, !string_app_assoc.
Qed.

Lemma context_block_grows_at_the_end_witness :
  _format_context {| llm := None |} ([doc_A; doc_B] ++ [doc_full])
  = Ok (context_block_spec [doc_A; doc_B] ++ NL ++ NL
          ++ entry (S (length [doc_A; doc_B]))
               (dict_get_default (metadata_of doc_full) "title"
                  (PStr "Unknown"))
               (doc_content doc_full)).
Proof.
  apply (context_block_grows_at_the_end {| llm := None |} [doc_A; doc_B]
           doc_full (context_block_spec [doc_A; doc_B]));
    [discriminate|reflexivity|exact I].
Defined.

(** ** What extraction looks at *)

Lemma extract_loop_same_metadata (answer : string) :
  ∀ documents documents' i citations,
    metadata <$> documents = metadata <$> documents' →
    extract_loop answer i documents citations
    = extract_loop answer i documents' citations.
Proof.
  induction documents as [|doc rest IH];
    intros [|doc' rest'] i citations Hmd; [done|done|done|].
  rewrite !fmap_cons in Hmd. injection Hmd as Hdoc Hrest. simpl.
  unfold doc_metadata. rewrite Hdoc.
  destruct (contains (marker i) answer); [|by apply IH].
  destruct (as_dict _) as [md|e]; [|done]. simpl. by apply IH.
Qed.

(** X11: The sources depend on the documents through their metadata only: two
    lists of documents with the same metadata, whatever their contents,
    have the same sources, or fail alike. *)
Theorem extraction_ignores_content (self self' : AnswerGenerator)
    (answer : string) (documents documents' : list document) :
  metadata <$> documents = metadata <$> documents' →
  _extract_citations self answer documents
  = _extract_citations self' answer documents'.
Proof. apply extract_loop_same_metadata. Qed.

Lemma extraction_ignores_content_witness :
  _extract_citations {| llm := None |} "See [1]." [doc_A]
  = _extract_citations {| llm := None |} "See [1]."
      [Document (Some (PStr "Another text.")) (metadata doc_A)].
Proof.
  apply (extraction_ignores_content {| llm := None |} {| llm := None |}
           "See [1]." [doc_A]
           [Document (Some (PStr "Another text.")) (metadata doc_A)]).
  reflexivity.
Defined.

Lemma cited_from_all (answer : string) (documents : list document) :
  ∀ i, (∀ k, (k < length documents)%nat →
             contains (marker (i + k)) answer = true) →
       cited_from answer i documents
       = imap (λ k doc, citation_of (i + k) doc) documents.
Proof.
  induction documents as [|doc rest IH]; intros i Hall; simpl; [done|].
  rewrite <-(Nat.add_0_r i) at 1. rewrite Hall by (simpl; lia). simpl.
  rewrite Nat.add_0_r. f_equal. rewrite IH.
  - apply imap_ext. intros k d _. simpl. f_equal. lia.
  - intros k Hk. rewrite Nat.add_succ_comm. apply Hall. simpl. lia.
Qed.

(** X12: An answer that holds the marker of every document has every document
    among its sources, once and in input order. *)
Theorem all_markers_cite_all_documents (self : AnswerGenerator)
    (answer : string) (documents : list document) :
  Forall mapping_metadata documents →
  (∀ i, (1 ≤ i ≤ length documents)%nat → occurs_in (marker i) answer) →
  _extract_citations self answer documents
  = Ok (imap (λ k doc,
                {| Citation.index := S k;
                   Citation.title := dict_get (metadata_of doc) "title";
                   Citation.authors := dict_get (metadata_of doc) "authors";
                   Citation.year := dict_get (metadata_of doc) "year" |})
          documents).
Proof.
  intros Hdocs Hall. rewrite extract_citations_ok by done. f_equal.
  rewrite cited_from_all.
  - apply imap_ext. intros k doc _. simpl. by rewrite citation_of_get.
  - intros k Hk. apply contains_occurs, Hall. lia.
Qed.

Lemma all_markers_cite_all_documents_witness :
  _extract_citations {| llm := None |} "First [2], then [1]."
    [doc_A; doc_full]
  = Ok (imap (λ k doc,
                {| Citation.index := S k;
                   Citation.title := dict_get (metadata_of doc) "title";
                   Citation.authors := dict_get (metadata_of doc) "authors";
                   Citation.year := dict_get (metadata_of doc) "year" |})
          [doc_A; doc_full]).
Proof.
  apply (all_markers_cite_all_documents {| llm := None |}
           "First [2], then [1]." [doc_A; doc_full]).
  - repeat constructor.
  - intros i Hi. apply contains_occurs.
    destruct i as [|[|[|i]]]; [simpl in Hi; lia|reflexivity|reflexivity|].
    simpl in Hi. lia.
Defined.

(** ** Construction *)

(** X13: The generator is in degraded mode exactly when the credential is [None]
    or the empty string; any other key, a blank one included, is handed to
    the provider's client together with the model and the temperature. *)
Theorem degraded_iff_falsy_credential (float : Type)
    (ChatOpenAI_new : string → float → string → ChatOpenAI)
    (model : string) (temperature : float) (api_key : option string) :
  (llm (__init__ ChatOpenAI_new model temperature api_key) = None
   ↔ api_key = None ∨ api_key = Some "") ∧
  (∀ key, api_key = Some key → key ≠ "" →
     llm (__init__ ChatOpenAI_new model temperature api_key)
     = Some (ChatOpenAI_new model temperature key)).
Proof.
  unfold __init__. simpl. destruct api_key as [key|]; simpl.
  - destruct (String.eqb_spec key "") as [->|Hkey]; simpl.
    + split; [split; [by right|done]|]. by intros key [= <-].
    + split.
      * split; [done|]. intros [|[= ->]]; done.
      * by intros key' [= <-].
  - split; [split; [by left|done]|done].
Qed.

Lemma degraded_iff_falsy_credential_witness :
  llm (__init__ sample_provider "gpt-4" (3, -1)%Z (Some " "))
  = Some (sample_provider "gpt-4" (3, -1)%Z " ").
Proof.
  apply (proj2 (degraded_iff_falsy_credential (Z * Z) sample_provider
                  "gpt-4" (3, -1)%Z (Some " ")) " ");
    [reflexivity|discriminate].
Defined.
